(** * DictOverlay: a dict that stages its writes until [flush]

    A shallow embedding of [src/dict_overlay.py].  The Python class keeps a
    reference to a caller-owned mapping ([base]), a private dict of pending
    edits ([staged]) in which the sentinel object [_DELETED] marks a pending
    deletion, an integer [len] maintained by hand, and a [ChainMap] view
    ([values]) over [staged] and [base].

    Modelling choices:
    - a Python value is either the sentinel or an ordinary payload
      ([pyval]); the sentinel is in-band, exactly as in the source, so the
      base or a caller may hold it too;
    - [staged] is a [gmap]; iterating a dict is modelled by [map_to_list],
      which enumerates every entry once.  Python yields the entries in
      insertion order, which a [gmap] does not record: where the outcome
      depends on the order (a [flush] that raises part way), the property
      is stated for every enumeration of the staged entries ([flush_over]);
    - [base] is any mapping-like object, given by the operations the class
      calls on it ([BaseMapping]); its writes may raise.  The ordinary
      [dict] is one instance;
    - methods are computations in a state-and-exception monad: an exception
      leaves the state as the method had made it so far;
    - a generator is modelled by what a full iteration over it produces: the
      keys yielded, and the exception that ended the iteration, if any;
    - [self.values] is not stored: the [ChainMap] holds references to
      [staged] and [base], so it is a function of the two. *)

From stdpp Require Import gmap strings list fin_maps.

(** ** Values and exceptions *)

(** [DELETED] is the class attribute [_DELETED]; the code tests for it by
    identity ([is]). *)
Inductive pyval (V : Type) : Type :=
  | DELETED
  | Val (v : V).
Arguments DELETED {V}.
Arguments Val {V} v.

Definition is_DELETED {V} (value : pyval V) : bool :=
  match value with
  | DELETED => true
  | Val _ => false
  end.

Inductive exn (K : Type) : Type :=
  | KeyError (key : K)
  | OtherError (name : string).
Arguments KeyError {K} key.
Arguments OtherError {K} name.

(** A drained generator: the keys it yielded, then the exception that ended
    the iteration ([None] when it ran to exhaustion). *)
Definition gen (K : Type) : Type := (list K * option (exn K))%type.

(** ** The interface the class needs from [base] *)

Class BaseMapping (K V B : Type) := {
  mm_get : K → B → option (pyval V);           (* b[key]; None is KeyError *)
  mm_contains : K → B → bool;                  (* key in b *)
  mm_setitem : K → pyval V → B → exn K + B;    (* b[key] = value *)
  mm_delitem : K → B → exn K + B;              (* del b[key] *)
  mm_len : B → nat;                            (* len(b) *)
  mm_iter : B → list K                         (* iter(b) *)
}.

(** The builtin [dict]. *)
Section dict.
Context {K : Type} {EqK : EqDecision K} {CountK : Countable K} {V : Type}.

Definition dict_delitem (key : K) (b : gmap K (pyval V))
  : exn K + gmap K (pyval V) :=
  match b !! key with
  | Some _ => inr (delete key b)
  | None => inl (KeyError key)
  end.

#[export] Instance dict_mapping : BaseMapping K V (gmap K (pyval V)) := {|
  mm_get key b := b !! key;
  mm_contains key b := bool_decide (is_Some (b !! key));
  mm_setitem key value b := inr (<[key:=value]> b);
  mm_delitem := dict_delitem;
  mm_len b := size b;
  mm_iter b := (map_to_list b).*1
|}.
End dict.

(** ** The overlay *)

Section overlay.
Context {K : Type} {EqK : EqDecision K} {CountK : Countable K}
        {V B : Type} {BaseB : BaseMapping K V B}.

Record DictOverlay : Type := mkDictOverlay {
  base : B;
  staged : gmap K (pyval V);
  len : Z
}.

Definition set_base (b : B) (s : DictOverlay) : DictOverlay :=
  {| base := b; staged := staged s; len := len s |}.
Definition set_staged (m : gmap K (pyval V)) (s : DictOverlay) : DictOverlay :=
  {| base := base s; staged := m; len := len s |}.
Definition set_len (n : Z) (s : DictOverlay) : DictOverlay :=
  {| base := base s; staged := staged s; len := n |}.

(** *** The monad of methods *)

Definition Op (A : Type) : Type := DictOverlay → DictOverlay * (exn K + A).

Definition ret {A} (a : A) : Op A := λ s, (s, inr a).
Definition raise {A} (e : exn K) : Op A := λ s, (s, inl e).
Definition bind {A A'} (m : Op A) (f : A → Op A') : Op A' :=
  λ s, match m s with
       | (s', inr a) => f a s'
       | (s', inl e) => (s', inl e)
       end.
Definition gets {A} (f : DictOverlay → A) : Op A := λ s, (s, inr (f s)).
Definition modify (f : DictOverlay → DictOverlay) : Op unit :=
  λ s, (f s, inr tt).
(** A read that may raise. *)
Definition lift {A} (f : DictOverlay → exn K + A) : Op A := λ s, (s, f s).
(** A write to [self.base]. *)
Definition on_base (f : B → exn K + B) : Op unit :=
  λ s, match f (base s) with
       | inr b => (set_base b s, inr tt)
       | inl e => (s, inl e)
       end.

Notation "'let*' x ':=' c 'in' k" := (bind c (λ x, k))
  (at level 10, x name, c at level 100, k at level 200).
Notation "c1 >> c2" := (bind c1 (λ _, c2))
  (at level 100, c2 at level 200, right associativity).

(** [for x in l: body(x)] *)
Fixpoint for_each {A} (l : list A) (body : A → Op unit) : Op unit :=
  match l with
  | [] => ret tt
  | x :: l' => body x >> for_each l' body
  end.

(** [try: m  except KeyError: handler] *)
Definition try_except_KeyError {A} (m : Op A) (handler : Op A) : Op A :=
  λ s, match m s with
       | (s', inl (KeyError _)) => handler s'
       | r => r
       end.

(** [(k for k in keys if test(k))], drained. *)
Fixpoint gen_filter (keys : list K) (test : K → exn K + bool) : gen K :=
  match keys with
  | [] => ([], None)
  | k :: rest =>
      match test k with
      | inl e => ([], Some e)
      | inr keep =>
          let '(ys, r) := gen_filter rest test in
          (if keep then k :: ys else ys, r)
      end
  end.

(** *** [self.values = ChainMap(self.staged, self.base)] *)

(** [ChainMap.__getitem__]: the first map that has the key answers. *)
Definition values_getitem (key : K) (s : DictOverlay) : exn K + pyval V :=
  match staged s !! key with
  | Some value => inr value
  | None =>
      match mm_get key (base s) with
      | Some value => inr value
      | None => inl (KeyError key)
      end
  end.

(** [ChainMap.__contains__]: [any(key in m for m in self.maps)]. *)
Definition values_contains (key : K) (s : DictOverlay) : bool :=
  bool_decide (is_Some (staged s !! key)) || mm_contains key (base s).

(** [dict.fromkeys] accumulated over several iterables: a key keeps the
    place of its first occurrence. *)
Fixpoint fromkeys (seen : list K) (l : list K) : list K :=
  match l with
  | [] => []
  | k :: l' =>
      if decide (k ∈ seen) then fromkeys seen l'
      else k :: fromkeys (k :: seen) l'
  end.

(** [ChainMap.__iter__]: the keys of [base], then those of [staged] that
    [base] did not give. *)
Definition values_keys (s : DictOverlay) : list K :=
  fromkeys [] (mm_iter (base s) ++ (map_to_list (staged s)).*1).

(** *** The methods of [DictOverlay] *)

Definition __init__ (b : B) : DictOverlay :=
  {| base := b; staged := ∅; len := Z.of_nat (mm_len b) |}.

Definition flush_entry (entry : K * pyval V) : Op unit :=
  let '(key, value) := entry in
  if is_DELETED value then
    let* present := gets (λ s, mm_contains key (base s)) in
    if (present : bool) then on_base (mm_delitem key) else ret tt
  else on_base (mm_setitem key value).

Definition flush : Op unit :=
  let* items := gets (λ s, map_to_list (staged s)) in
  for_each items flush_entry >>
  modify (set_staged ∅).

(** [flush] with the order in which [self.staged.items()] yields the entries
    made explicit: [items] is the sequence the loop goes through. *)
Definition flush_over (items : list (K * pyval V)) : Op unit :=
  for_each items flush_entry >>
  modify (set_staged ∅).

(** What committing one staged entry asks of the base, in the words of the
    specification: a tombstone removes the key from the base, and is a no-op
    when the base lacks it; a value is written into the base. *)
Definition base_write (entry : K * pyval V) (b : B) : exn K + B :=
  match entry with
  | (key, DELETED) => if mm_contains key b then mm_delitem key b else inr b
  | (key, Val v) => mm_setitem key (Val v) b
  end.

(** The writes for a sequence of entries, one after the other, up to the
    first that raises. *)
Fixpoint base_writes (entries : list (K * pyval V)) (b : B) : exn K + B :=
  match entries with
  | [] => inr b
  | entry :: rest =>
      match base_write entry b with
      | inr b' => base_writes rest b'
      | inl e => inl e
      end
  end.

Definition reset : Op unit :=
  modify (set_staged ∅) >>
  let* n := gets (λ s, mm_len (base s)) in
  modify (set_len (Z.of_nat n)).

Definition __getitem__ (key : K) : Op (pyval V) :=
  let* value := lift (values_getitem key) in
  if is_DELETED value then raise (KeyError key) else ret value.

Definition __setitem__ (key : K) (value : pyval V) : Op unit :=
  let* known := gets (values_contains key) in
  (if (known : bool) then ret tt else modify (λ s, set_len (len s + 1) s)) >>
  modify (λ s, set_staged (<[key:=value]> (staged s)) s).

Definition __delitem__ (key : K) : Op unit :=
  let* known := gets (values_contains key) in
  let* gone :=
    (if (known : bool)
     then let* value := lift (values_getitem key) in ret (is_DELETED value)
     else ret true) in
  if (gone : bool) then raise (KeyError key)
  else
    modify (λ s, set_staged (<[key:=DELETED]> (staged s)) s) >>
    modify (λ s, set_len (len s - 1) s).

Definition __len__ : Op Z := gets len.

(** The builtin [len(d)]: it calls [__len__] and raises ValueError when the
    method returns a negative number. *)
Definition builtin_len : Op Z :=
  let* n := __len__ in
  if (n <? 0)%Z then raise (OtherError "ValueError") else ret n.

(** Lines 58 and 61 of the source read
    [(k if self[k] is not self._DELETED for k in self.staged)], a
    conditional expression without its [else], which Python rejects.  They
    are read as the filter they were meant to be,
    [(k for k in self.staged if self[k] is not self._DELETED)]: the test
    goes through [self[k]], that is [__getitem__]. *)
Definition getitem_test (test : pyval V → bool) (s : DictOverlay) (k : K)
  : exn K + bool :=
  match __getitem__ k s with
  | (_, inr value) => inr (test value)
  | (_, inl e) => inl e
  end.

Definition changed (s : DictOverlay) : gen K :=
  gen_filter (map_to_list (staged s)).*1
             (getitem_test (λ value, negb (is_DELETED value)) s).

Definition deleted (s : DictOverlay) : gen K :=
  gen_filter (map_to_list (staged s)).*1
             (getitem_test is_DELETED s).

(** [for key, value in self.values.items(): if value is not _DELETED: yield key];
    [items()] pairs every key of the chain with [self.values[key]]. *)
Definition __iter__ (s : DictOverlay) : gen K :=
  gen_filter (values_keys s)
    (λ key, match values_getitem key s with
            | inr value => inr (negb (is_DELETED value))
            | inl e => inl e
            end).

(** Inherited from [collections.abc.Mapping]:
    [try: self[key]  except KeyError: return False  else: return True]. *)
Definition __contains__ (key : K) : Op bool :=
  try_except_KeyError (__getitem__ key >> ret true) (ret false).

(** *** The calls of the public surface, and sequences of them *)

Inductive call : Type :=
  | Get (key : K)
  | Contains (key : K)
  | Set_ (key : K) (value : V)
  | Del (key : K)
  | Changed
  | Deleted
  | Enumerate
  | Size
  | Discard
  | Commit.

Definition is_commit (c : call) : bool :=
  match c with Commit => true | _ => false end.

Inductive answer : Type :=
  | AVal (value : pyval V)
  | ABool (b : bool)
  | AKeys (g : gen K)
  | AInt (n : Z)
  | ANone.

Definition exec (c : call) : Op answer :=
  match c with
  | Get key => let* value := __getitem__ key in ret (AVal value)
  | Contains key => let* b := __contains__ key in ret (ABool b)
  | Set_ key value => __setitem__ key (Val value) >> ret ANone
  | Del key => __delitem__ key >> ret ANone
  | Changed => let* g := gets changed in ret (AKeys g)
  | Deleted => let* g := gets deleted in ret (AKeys g)
  | Enumerate => let* g := gets __iter__ in ret (AKeys g)
  | Size => let* n := builtin_len in ret (AInt n)
  | Discard => reset >> ret ANone
  | Commit => flush >> ret ANone
  end.

(** The state after a sequence of calls; a call that raises leaves the
    state it reached, and the caller goes on. *)
Definition run (calls : list call) (s : DictOverlay) : DictOverlay :=
  foldl (λ s c, (exec c s).1) s calls.

(** *** The presence predicate of the specification *)

(** A key with a staged entry is present iff the entry is a value and not
    the tombstone; a key without one is present iff the base has it. *)
Definition is_present (s : DictOverlay) (k : K) : bool :=
  match staged s !! k with
  | Some entry => negb (is_DELETED entry)
  | None => mm_contains k (base s)
  end.

(** The base holds legal values only: the sentinel is reserved. *)
Definition legal_base (s : DictOverlay) : Prop :=
  ∀ k, mm_get k (base s) ≠ Some DELETED.
End overlay.

Arguments DictOverlay K {_ _} V B.
Arguments Op K {_ _} V B A.
Arguments call : clear implicits.
Arguments answer : clear implicits.

(** ** The size invariant, over a [dict] base *)

Section invariant.
Context {K : Type} {EqK : EqDecision K} {CountK : Countable K} {V : Type}.
Implicit Types s : DictOverlay K V (gmap K (pyval V)).

(** The brute-force scan: the keys of base and staged that are present. *)
Definition present_keys s : gset K :=
  filter (λ k, is_present s k) (dom (staged s) ∪ dom (base s)).

Definition present_count s : nat := size (present_keys s).

Definition size_invariant s : Prop := len s = Z.of_nat (present_count s).

(** The effective value of [k], staging layered over base, is a real
    value: what [__iter__] tests before it yields [k]. *)
Definition live s (k : K) : bool :=
  match values_getitem k s with
  | inr value => negb (is_DELETED value)
  | inl _ => false
  end.
End invariant.

(** ** Call sequences that never set a tombstoned key *)

Section resurrection.
Context {K : Type} {EqK : EqDecision K} {CountK : Countable K}
        {V B : Type} {BaseB : BaseMapping K V B}.

(** The call assigns to a key that is staged as a tombstone. *)
Definition resurrects (c : call K V) (s : DictOverlay K V B) : bool :=
  match c with
  | Set_ key _ =>
      match staged s !! key with
      | Some DELETED => true
      | _ => false
      end
  | _ => false
  end.

(** No call of the sequence, run from [s], assigns to a key staged as a
    tombstone at that point. *)
Fixpoint no_resurrection (calls : list (call K V)) (s : DictOverlay K V B)
  : bool :=
  match calls with
  | [] => true
  | c :: calls' =>
      negb (resurrects c s) && no_resurrection calls' (exec c s).1
  end.
End resurrection.

(** The base holds no sentinel, checked entry by entry. *)
Definition legal_dict {K : Type} {EqK : EqDecision K} {CountK : Countable K}
    {V : Type} (b : gmap K (pyval V)) : bool :=
  forallb (λ entry, negb (is_DELETED entry.2)) (map_to_list b).

(** ** A base whose writes can raise *)

(** A dict some of whose keys are locked: assigning to a locked key, or
    deleting one, raises and changes nothing.  It stands for the mappings
    other than [dict] that a caller may hand to the overlay. *)
Record LockedDict (K : Type) {EqK : EqDecision K} {CountK : Countable K}
    (V : Type) : Type := mkLockedDict {
  ld_items : gmap K (pyval V);
  ld_locked : gset K
}.
Arguments mkLockedDict {K EqK CountK V} ld_items ld_locked.
Arguments ld_items {K EqK CountK V} _.
Arguments ld_locked {K EqK CountK V} _.

Section locked.
Context {K : Type} {EqK : EqDecision K} {CountK : Countable K} {V : Type}.

Definition locked_setitem (key : K) (value : pyval V) (b : LockedDict K V)
  : exn K + LockedDict K V :=
  if decide (key ∈ ld_locked b) then inl (OtherError "PermissionError")
  else inr (mkLockedDict (<[key:=value]> (ld_items b)) (ld_locked b)).

Definition locked_delitem (key : K) (b : LockedDict K V)
  : exn K + LockedDict K V :=
  if decide (key ∈ ld_locked b) then inl (OtherError "PermissionError")
  else match ld_items b !! key with
       | Some _ => inr (mkLockedDict (delete key (ld_items b)) (ld_locked b))
       | None => inl (KeyError key)
       end.

#[export] Instance locked_mapping : BaseMapping K V (LockedDict K V) := {|
  mm_get key b := ld_items b !! key;
  mm_contains key b := bool_decide (is_Some (ld_items b !! key));
  mm_setitem := locked_setitem;
  mm_delitem := locked_delitem;
  mm_len b := size (ld_items b);
  mm_iter b := (map_to_list (ld_items b)).*1
|}.
End locked.

(** ** The scenario of the specification: base [{a: 1, b: 2}] *)

Definition scenario_base : gmap string (pyval Z) :=
  <["a" := Val 1%Z]> (<["b" := Val 2%Z]> ∅).

Definition scenario_new : DictOverlay string Z (gmap string (pyval Z)) :=
  __init__ scenario_base.

(** After [d["c"] = 3; del d["a"]]. *)
Definition scenario_staged : DictOverlay string Z (gmap string (pyval Z)) :=
  run [Set_ "c" 3%Z; Del "a"] scenario_new.

(** After [d["c"] = 3; del d["a"]; d["a"] = 9]. *)
Definition scenario_resurrected
  : DictOverlay string Z (gmap string (pyval Z)) :=
  run [Set_ "c" 3%Z; Del "a"; Set_ "a" 9%Z] scenario_new.

(** After [del d["a"]] alone. *)
Definition scenario_deleted : DictOverlay string Z (gmap string (pyval Z)) :=
  run [Del "a"] scenario_new.

(** After [del d["a"]; d["a"] = 9; del d["a"]] over the base [{a: 1}]: the
    counter is at -1. *)
Definition scenario_negative : DictOverlay string Z (gmap string (pyval Z)) :=
  run [Del "a"; Set_ "a" 9%Z; Del "a"] (__init__ (<["a" := Val 1%Z]> ∅)).

(** The same pending edits as [scenario_resurrected], over a base in which
    the key [a] is locked. *)
Definition scenario_locked : DictOverlay string Z (LockedDict string Z) :=
  {| base := mkLockedDict scenario_base {["a"]};
     staged := <["c" := Val 3%Z]> (<["a" := Val 9%Z]> ∅);
     len := 3 |}.

(** * Properties that hold over any base mapping *)

(** Unfolds a method down to the state it returns. *)
Ltac unfold_op :=
  unfold __contains__, __getitem__, __setitem__, __delitem__, __len__,
    reset, flush_entry, try_except_KeyError, on_base,
    bind, lift, gets, modify, raise, ret in *; simpl in *.

Section generic.
Context {K : Type} {EqK : EqDecision K} {CountK : Countable K}
        {V B : Type} {BaseB : BaseMapping K V B}.
Implicit Types (s : DictOverlay K V B) (k key : K).

(** ** Reading *)

Lemma getitem_state key s : (__getitem__ key s).1 = s.
Proof.
  unfold_op. destruct (values_getitem key s) as [e|[|v]]; reflexivity.
Qed.

Lemma getitem_result key s :
  (__getitem__ key s).2 =
    match values_getitem key s with
    | inr (Val v) => inr (Val v)
    | _ => inl (KeyError key)
    end.
Proof.
  unfold_op. unfold values_getitem.
  destruct (staged s !! key) as [[|v]|]; simpl; try reflexivity.
  destruct (mm_get key (base s)) as [[|v]|]; reflexivity.
Qed.

Lemma contains_state key s : (__contains__ key s).1 = s.
Proof.
  unfold_op. destruct (values_getitem key s) as [[]|[|v]]; reflexivity.
Qed.

(** C4: [get] answers from the staged entry when there is one (its value,
    or KeyError for a tombstone), from the base otherwise (KeyError when
    the base lacks the key), and leaves the overlay as it was.  The base is
    assumed to hold a legal value at [key], not the reserved marker. *)
Theorem getitem_spec key s :
  mm_get key (base s) ≠ Some DELETED →
  __getitem__ key s =
    (s, match staged s !! key with
        | Some (Val v) => inr (Val v)
        | Some DELETED => inl (KeyError key)
        | None =>
            match mm_get key (base s) with
            | Some value => inr value
            | None => inl (KeyError key)
            end
        end).
Proof.
  intros Hlegal. unfold_op. unfold values_getitem.
  destruct (staged s !! key) as [[|v]|]; simpl; try reflexivity.
  destruct (mm_get key (base s)) as [[|v]|]; simpl; try reflexivity.
  congruence.
Qed.

(** ** Discarding *)

Lemma reset_eq s : reset s = (__init__ (base s), inr ()).
Proof. reflexivity. Qed.

(** C6: [reset] empties the staging dict and sets the counter to the size
    of the base, which it does not touch; the overlay is then the one
    [__init__] builds over that base, so every observation agrees. *)
Theorem reset_spec s :
  (reset s).2 = inr () ∧
  staged (reset s).1 = ∅ ∧
  len (reset s).1 = Z.of_nat (mm_len (base s)) ∧
  base (reset s).1 = base s ∧
  (reset s).1 = __init__ (base s) ∧
  (∀ key, (__getitem__ key (reset s).1).2
          = (__getitem__ key (__init__ (base s))).2) ∧
  (∀ key, (__getitem__ key (reset s).1).2
          = match mm_get key (base s) with
            | Some (Val v) => inr (Val v)
            | _ => inl (KeyError key)
            end) ∧
  __iter__ (reset s).1 = __iter__ (__init__ (base s)) ∧
  (__len__ (reset s).1).2 = (__len__ (__init__ (base s))).2 ∧
  (__len__ (reset s).1).2 = inr (Z.of_nat (mm_len (base s))).
Proof.
  rewrite reset_eq. simpl. repeat split.
  intros key. rewrite getitem_result. unfold values_getitem. simpl.
  rewrite lookup_empty. destruct (mm_get key (base s)) as [[|v]|]; reflexivity.
Qed.

(** ** The base is written by [flush] only *)

Lemma setitem_base key value s : base (__setitem__ key value s).1 = base s.
Proof. unfold_op. destruct (values_contains key s); reflexivity. Qed.

Lemma delitem_base key s : base (__delitem__ key s).1 = base s.
Proof.
  unfold_op. destruct (values_contains key s); simpl; [|reflexivity].
  destruct (values_getitem key s) as [e|[|v]]; reflexivity.
Qed.

Lemma builtin_len_unfold s :
  builtin_len s =
    (s, if (len s <? 0)%Z then inl (OtherError "ValueError") else inr (len s)).
Proof.
  unfold builtin_len, __len__, bind, gets, raise, ret.
  by destruct (len s <? 0)%Z.
Qed.

Lemma exec_base (c : call K V) s :
  is_commit c = false → base (exec c s).1 = base s.
Proof.
  destruct c; simpl; try discriminate; intros _; unfold exec, bind.
  - pose proof (getitem_state key s) as E.
    destruct (__getitem__ key s) as [s' [e|a]]; simpl in *; by subst.
  - pose proof (contains_state key s) as E.
    destruct (__contains__ key s) as [s' [e|a]]; simpl in *; by subst.
  - pose proof (setitem_base key (Val value) s) as E.
    destruct (__setitem__ key (Val value) s) as [s' [e|a]]; simpl in *; done.
  - pose proof (delitem_base key s) as E.
    destruct (__delitem__ key s) as [s' [e|a]]; simpl in *; done.
  - reflexivity.
  - reflexivity.
  - reflexivity.
  - rewrite builtin_len_unfold. by destruct (len s <? 0)%Z.
  - reflexivity.
Qed.

Lemma run_snoc calls (c : call K V) s :
  run (calls ++ [c]) s = (exec c (run calls s)).1.
Proof. unfold run. by rewrite foldl_app. Qed.

(** C7: a sequence of calls none of which is [flush] leaves the base as it
    was: [get], [contains], [set], [delete], [changed], [deleted],
    iteration, [len] and [reset] never write to it. *)
Theorem run_base (calls : list (call K V)) s :
  Forall (λ c, is_commit c = false) calls →
  base (run calls s) = base s.
Proof.
  induction calls as [|c calls IH] using rev_ind; [reflexivity|].
  intros [Hcalls Hc]%Forall_app. rewrite run_snoc.
  rewrite exec_base; [by apply IH | by inversion Hc].
Qed.
(** ** A [flush] that raises *)

Lemma for_each_cons {A} (x : A) l (body : A → Op K V B ()) s :
  for_each (x :: l) body s =
    match body x s with
    | (s', inr _) => for_each l body s'
    | (s', inl e) => (s', inl e)
    end.
Proof. reflexivity. Qed.

Lemma for_each_raises {A} (l : list A) (body : A → Op K V B ()) s s' e :
  for_each l body s = (s', inl e) →
  ∃ done x rest s1,
    l = done ++ x :: rest ∧
    for_each done body s = (s1, inr ()) ∧
    body x s1 = (s', inl e).
Proof.
  revert s. induction l as [|x l IH]; intros s; simpl; [discriminate|].
  unfold bind at 1. destruct (body x s) as [s1 [e1|[]]] eqn:Ex.
  - intros [= <- <-]. exists [], x, l, s. by repeat split.
  - intros (done & y & rest & s2 & -> & Hdone & Hy)%IH.
    exists (x :: done), y, rest, s2. repeat split; [|done].
    simpl. unfold bind at 1. by rewrite Ex.
Qed.

Lemma flush_entry_frame entry s :
  staged (flush_entry entry s).1 = staged s ∧
  len (flush_entry entry s).1 = len s.
Proof.
  destruct entry as [key [|v]]; unfold_op.
  - destruct (mm_contains key (base s)); [|done].
    by destruct (mm_delitem key (base s)).
  - by destruct (mm_setitem key (Val v) (base s)).
Qed.

Lemma flush_entry_raises entry s s' e :
  flush_entry entry s = (s', inl e) → s' = s.
Proof.
  destruct entry as [key [|v]]; unfold_op.
  - destruct (mm_contains key (base s)); [|discriminate].
    destruct (mm_delitem key (base s)); congruence.
  - destruct (mm_setitem key (Val v) (base s)); congruence.
Qed.

Lemma for_each_flush_frame l s :
  staged (for_each l flush_entry s).1 = staged s ∧
  len (for_each l flush_entry s).1 = len s.
Proof.
  revert s. induction l as [|entry l IH]; intros s; simpl; [done|].
  unfold bind. pose proof (flush_entry_frame entry s) as [Hs Hl].
  destruct (flush_entry entry s) as [s1 [e|[]]]; simpl in *; [done|].
  destruct (IH s1) as [-> ->]. done.
Qed.

Lemma flush_unfold s :
  flush s =
    match for_each (map_to_list (staged s)) flush_entry s with
    | (s', inr _) => (set_staged ∅ s', inr ())
    | (s', inl e) => (s', inl e)
    end.
Proof.
  unfold flush, bind, gets, modify.
  by destruct (for_each (map_to_list (staged s)) flush_entry s) as [s' [e|[]]].
Qed.

(** When [flush] raises, it raised at one staged entry; the entries before
    it in the iteration were applied to the base, the failing write changed
    nothing, and the staging dict and the counter are as they were. *)
Lemma flush_raises s s' e :
  flush s = (s', inl e) →
  staged s' = staged s ∧
  len s' = len s ∧
  ∃ done entry rest,
    map_to_list (staged s) = done ++ entry :: rest ∧
    for_each done flush_entry s = (s', inr ()) ∧
    flush_entry entry s' = (s', inl e).
Proof.
  rewrite flush_unfold.
  pose proof (for_each_flush_frame (map_to_list (staged s)) s) as [Hs Hl].
  destruct (for_each (map_to_list (staged s)) flush_entry s)
    as [s1 [e1|[]]] eqn:Eloop; [|discriminate].
  intros [= -> ->]. simpl in *. repeat split; [done..|].
  apply for_each_raises in Eloop as (done & entry & rest & s1 & ? & ? & Hentry).
  pose proof (flush_entry_raises _ _ _ _ Hentry) as ->.
  by exists done, entry, rest.
Qed.

Lemma flush_returns s s' :
  flush s = (s', inr ()) → staged s' = ∅ ∧ len s' = len s.
Proof.
  rewrite flush_unfold.
  pose proof (for_each_flush_frame (map_to_list (staged s)) s) as [Hs Hl].
  destruct (for_each (map_to_list (staged s)) flush_entry s)
    as [s1 [e1|[]]]; [discriminate|].
  intros [= <-]. done.
Qed.
Lemma gen_filter_total (keys : list K) (test : K → exn K + bool)
    (f : K → bool) :
  (∀ k, k ∈ keys → test k = inr (f k)) →
  gen_filter keys test = (filter (λ k, f k) keys, None).
Proof.
  induction keys as [|k keys IH]; intros Htest; simpl; [done|].
  rewrite (Htest k) by apply list_elem_of_here.
  rewrite IH by (intros; apply Htest; by apply list_elem_of_further).
  rewrite filter_cons. by destruct (f k).
Qed.

(** ** [changed] and [deleted] *)

Lemma gen_filter_never (keys : list K) (test : K → exn K + bool) :
  (∀ k, test k ≠ inr true) → (gen_filter keys test).1 = [].
Proof.
  intros Htest. induction keys as [|k keys IH]; simpl; [done|].
  pose proof (Htest k) as Hk.
  destruct (test k) as [e|[|]]; [done|done|].
  by destruct (gen_filter keys test).
Qed.

Lemma gen_filter_raises (keys : list K) (test : K → exn K + bool) k e :
  k ∈ keys → test k = inl e →
  ∃ k' e', k' ∈ keys ∧ test k' = inl e' ∧
           (gen_filter keys test).2 = Some e'.
Proof.
  intros Hin Hk. induction keys as [|k0 keys IH]; [by inversion Hin|].
  simpl. destruct (test k0) as [e0|keep] eqn:E0.
  - exists k0, e0. split_and!; [apply list_elem_of_here|done..].
  - destruct IH as (k' & e' & Hin' & Hk' & Hres).
    { apply elem_of_cons in Hin as [->|?]; [congruence|done]. }
    exists k', e'. split_and!; [by apply list_elem_of_further|done|].
    by destruct (gen_filter keys test).
Qed.

Lemma getitem_test_staged (test : pyval V → bool) s k value :
  staged s !! k = Some value →
  getitem_test test s k =
    if is_DELETED value then inl (KeyError k) else inr (test value).
Proof.
  intros Hk. unfold getitem_test. unfold_op. unfold values_getitem.
  rewrite Hk. by destruct value.
Qed.

Lemma getitem_test_is_DELETED s k : getitem_test is_DELETED s k ≠ inr true.
Proof.
  unfold getitem_test. unfold_op.
  by destruct (values_getitem k s) as [e|[|v]].
Qed.

(** Whatever is staged, [deleted] yields no key at all. *)
Lemma deleted_yields_nothing s : (deleted s).1 = [].
Proof. apply gen_filter_never, getitem_test_is_DELETED. Qed.

(** X14: with a tombstone staged, iterating [changed] or [deleted] ends in
    the KeyError that [__getitem__] raises for a tombstoned key. *)
Lemma pending_raise s k :
  staged s !! k = Some DELETED →
  (∃ k', staged s !! k' = Some DELETED ∧
         (changed s).2 = Some (KeyError k')) ∧
  (∃ k', staged s !! k' = Some DELETED ∧
         (deleted s).2 = Some (KeyError k')).
Proof.
  intros Hk.
  assert (k ∈ (map_to_list (staged s)).*1) as Hin.
  { apply list_elem_of_fmap. exists (k, DELETED).
    by rewrite elem_of_map_to_list. }
  assert (∀ test k' e',
    k' ∈ (map_to_list (staged s)).*1 → getitem_test test s k' = inl e' →
    staged s !! k' = Some DELETED ∧ e' = KeyError k') as Hfail.
  { intros test k' e' ([k'' value] & -> & Hin')%list_elem_of_fmap.
    apply elem_of_map_to_list in Hin'. simpl.
    rewrite (getitem_test_staged _ _ _ _ Hin').
    destruct value; [|done]. by intros [= <-]. }
  split.
  - destruct (gen_filter_raises _ (getitem_test (λ v, negb (is_DELETED v)) s)
                k (KeyError k) Hin) as (k' & e' & Hin' & Hk' & Hres).
    { by rewrite (getitem_test_staged _ _ _ _ Hk). }
    destruct (Hfail _ _ _ Hin' Hk') as [? ->]. by exists k'.
  - destruct (gen_filter_raises _ (getitem_test is_DELETED s)
                k (KeyError k) Hin) as (k' & e' & Hin' & Hk' & Hres).
    { by rewrite (getitem_test_staged _ _ _ _ Hk). }
    destruct (Hfail _ _ _ Hin' Hk') as [? ->]. by exists k'.
Qed.

Lemma filter_all (l : list K) : filter (λ _, true) l = l.
Proof.
  induction l as [|k l IH]; [done|].
  rewrite filter_cons_True by exact I. by rewrite IH.
Qed.

Lemma filter_none (l : list K) : filter (λ _, false) l = [].
Proof.
  induction l as [|k l IH]; [done|].
  rewrite filter_cons_False by (intros []). exact IH.
Qed.

(** X13: with no tombstone staged, [changed] yields every staged key and
    [deleted] is empty; neither raises. *)
Lemma pending_without_tombstone s :
  (∀ k, staged s !! k ≠ Some DELETED) →
  changed s = ((map_to_list (staged s)).*1, None) ∧
  deleted s = ([], None).
Proof.
  intros Hnone.
  assert (∀ test k, k ∈ (map_to_list (staged s)).*1 →
    ∃ v, getitem_test test s k = inr (test (Val v))) as Hok.
  { intros test k ([k' value] & -> & Hin)%list_elem_of_fmap.
    apply elem_of_map_to_list in Hin. simpl.
    rewrite (getitem_test_staged _ _ _ _ Hin).
    destruct value as [|v]; [by destruct (Hnone k')|eauto]. }
  split.
  - unfold changed. rewrite (gen_filter_total _ _ (λ _, true)).
    + f_equal. apply filter_all.
    + intros k Hk. by destruct (Hok (λ v, negb (is_DELETED v)) k Hk) as [v ->].
  - unfold deleted. rewrite (gen_filter_total _ _ (λ _, false)).
    + f_equal. apply filter_none.
    + intros k Hk. by destruct (Hok is_DELETED k Hk) as [v ->].
Qed.
End generic.

(** * Properties over a [dict] base *)

Section over_dict.
Context {K : Type} {EqK : EqDecision K} {CountK : Countable K} {V : Type}.
Implicit Types (s : DictOverlay K V (gmap K (pyval V))) (k key : K).

Lemma values_getitem_dict key s :
  values_getitem key s =
    match staged s !! key with
    | Some value => inr value
    | None => match base s !! key with
              | Some value => inr value
              | None => inl (KeyError key)
              end
    end.
Proof. reflexivity. Qed.

Lemma values_contains_dict key s :
  values_contains key s = true ↔
  is_Some (staged s !! key) ∨ is_Some (base s !! key).
Proof.
  unfold values_contains. simpl.
  rewrite orb_true_iff, !bool_decide_eq_true. done.
Qed.

Lemma is_present_live key s :
  base s !! key ≠ Some DELETED → is_present s key = live s key.
Proof.
  intros Hlegal. unfold is_present, live. rewrite values_getitem_dict. simpl.
  destruct (staged s !! key) as [[|v]|]; try reflexivity.
  destruct (base s !! key) as [[|v]|] eqn:E; try reflexivity.
  congruence.
Qed.

Lemma is_present_false key s :
  is_present s key = false ↔
  (staged s !! key = None ∧ base s !! key = None) ∨
  staged s !! key = Some DELETED.
Proof.
  unfold is_present. simpl.
  destruct (staged s !! key) as [[|v]|]; simpl.
  - split; [by right|done].
  - split; [done|]. by intros [[? ?]|?].
  - rewrite bool_decide_eq_false, <-eq_None_not_Some.
    split; [by left|]. by intros [[? ?]|?].
Qed.

(** ** Deleting *)

Lemma delitem_eq key s :
  base s !! key ≠ Some DELETED →
  __delitem__ key s =
    (if is_present s key
     then (set_len (len s - 1)
             (set_staged (<[key:=DELETED]> (staged s)) s), inr ())
     else (s, inl (KeyError key))).
Proof.
  intros Hlegal.
  unfold_op. unfold values_contains, values_getitem, is_present. simpl.
  destruct (staged s !! key) as [[|v]|] eqn:Es; simpl;
    rewrite ?Es; simpl; try reflexivity.
  destruct (base s !! key) as [[|v]|] eqn:Eb; simpl;
    rewrite ?Es, ?Eb; simpl; try reflexivity.
  congruence.
Qed.

(** C5: [delete] raises KeyError, and changes nothing, exactly when the key
    is not present: neither staged nor in the base, or staged as a
    tombstone.  Otherwise it stages the tombstone and takes one off the
    counter.  Whatever the first call did, deleting the same key again at
    once raises KeyError.  The base is assumed to hold a legal value at
    [key]. *)
Theorem delitem_spec key s :
  base s !! key ≠ Some DELETED →
  __delitem__ key s =
    (if is_present s key
     then (set_len (len s - 1)
             (set_staged (<[key:=DELETED]> (staged s)) s), inr ())
     else (s, inl (KeyError key))) ∧
  (is_present s key = false ↔
     (staged s !! key = None ∧ base s !! key = None) ∨
     staged s !! key = Some DELETED) ∧
  __delitem__ key (__delitem__ key s).1
    = ((__delitem__ key s).1, inl (KeyError key)).
Proof.
  intros Hlegal.
  split; [by apply delitem_eq|split; [apply is_present_false|]].
  rewrite (delitem_eq key s Hlegal).
  destruct (is_present s key) eqn:Ep; simpl.
  - rewrite delitem_eq by done.
    unfold is_present. simpl. by rewrite lookup_insert_eq.
  - rewrite delitem_eq by done. by rewrite Ep.
Qed.

(** ** Membership *)

(** C10: [key in overlay] is the presence predicate: false for a staged
    tombstone, true for a staged value whatever the base holds; it returns
    a boolean, never raises, and leaves the overlay as it was.  The base is
    assumed to hold a legal value at [key]. *)
Theorem contains_spec key s :
  base s !! key ≠ Some DELETED →
  __contains__ key s = (s, inr (is_present s key)) ∧
  (staged s !! key = Some DELETED → __contains__ key s = (s, inr false)) ∧
  (∀ v, staged s !! key = Some (Val v) →
        __contains__ key s = (s, inr true)).
Proof.
  intros Hlegal.
  assert (__contains__ key s = (s, inr (is_present s key))) as E.
  { unfold_op. unfold values_getitem, is_present. simpl.
    destruct (staged s !! key) as [[|v]|]; simpl; try reflexivity.
    destruct (base s !! key) as [[|v]|]; simpl; try reflexivity.
    congruence. }
  split; [done|]. rewrite E. unfold is_present.
  split; [intros ->|intros v ->]; reflexivity.
Qed.
(** ** Iterating *)

Lemma elem_of_fromkeys (seen l : list K) k :
  k ∈ fromkeys seen l ↔ k ∈ l ∧ k ∉ seen.
Proof.
  revert seen. induction l as [|x l IH]; intros seen; simpl.
  - rewrite elem_of_nil. tauto.
  - destruct (decide (x ∈ seen)) as [Hx|Hx].
    + rewrite IH, elem_of_cons. split; [tauto|].
      intros [[->|?] ?]; tauto.
    + rewrite elem_of_cons, IH, !elem_of_cons.
      destruct (decide (k = x)) as [->|?]; [tauto|]. tauto.
Qed.

Lemma NoDup_fromkeys (seen l : list K) : NoDup (fromkeys seen l).
Proof.
  revert seen. induction l as [|x l IH]; intros seen; simpl.
  - constructor.
  - destruct (decide (x ∈ seen)); [apply IH|].
    constructor; [|apply IH].
    rewrite elem_of_fromkeys, elem_of_cons. tauto.
Qed.

Lemma elem_of_values_keys k s :
  k ∈ values_keys s ↔ is_Some (staged s !! k) ∨ is_Some (base s !! k).
Proof.
  unfold values_keys. simpl.
  rewrite elem_of_fromkeys, elem_of_app, elem_of_nil.
  rewrite <-!elem_of_dom, !list_elem_of_fmap.
  split.
  - intros [[([k' v] & -> & Hin)|([k' v] & -> & Hin)] _];
      apply elem_of_map_to_list in Hin; simpl;
      [right|left]; apply elem_of_dom; eauto.
  - intros [[v Hk]%elem_of_dom|[v Hk]%elem_of_dom]; (split; [|tauto]);
      [right|left]; exists (k, v); by rewrite elem_of_map_to_list.
Qed.

(** Over a dict the iteration never raises: every key of the chain has a
    value in the chain. *)
Lemma iter_eq s : __iter__ s = (filter (λ k, live s k) (values_keys s), None).
Proof.
  unfold __iter__. apply gen_filter_total.
  intros k Hk%elem_of_values_keys. unfold live. rewrite values_getitem_dict.
  destruct (staged s !! k) as [value|]; [done|].
  destruct Hk as [[? [=]]|[value ->]]. done.
Qed.

Lemma iter_spec s :
  ∃ l, __iter__ s = (l, None) ∧ NoDup l ∧ ∀ k, k ∈ l ↔ live s k = true.
Proof.
  exists (filter (λ k, live s k) (values_keys s)).
  split; [apply iter_eq|]. split.
  - apply NoDup_filter, NoDup_fromkeys.
  - intros k. rewrite list_elem_of_filter, elem_of_values_keys.
    rewrite Is_true_true. split; [tauto|]. intros Hlive. split; [done|].
    revert Hlive. unfold live. rewrite values_getitem_dict.
    destruct (staged s !! k); [eauto|].
    destruct (base s !! k); [eauto|done].
Qed.

(** C8: iterating the overlay yields the present keys, each once, and
    nothing else: the keys of the base that are not staged as tombstones
    and the keys staged with a value.  The base is assumed to hold legal
    values only. *)
Theorem iter_present s :
  legal_base s →
  ∃ l, __iter__ s = (l, None) ∧
       NoDup l ∧
       (∀ k, k ∈ l ↔ is_present s k = true) ∧
       (∀ k, k ∈ l ↔
             (is_Some (base s !! k) ∧ staged s !! k ≠ Some DELETED) ∨
             (∃ v, staged s !! k = Some (Val v))).
Proof.
  intros Hlegal. destruct (iter_spec s) as (l & El & Hnodup & Hl).
  exists l. split_and!; try done.
  - intros k. rewrite Hl, is_present_live; [done|apply Hlegal].
  - intros k. rewrite Hl, <-is_present_live by apply Hlegal.
    unfold is_present; simpl.
    destruct (staged s !! k) as [[|v]|]; simpl.
    + split; [done|]. intros [[_ ?]|[v [=]]]. done.
    + split; [eauto|done].
    + rewrite bool_decide_eq_true. split; [by left|].
      intros [[? _]|[v [=]]]. done.
Qed.
(** ** The counter and the present keys *)

Lemma elem_of_present_keys k s : k ∈ present_keys s ↔ is_present s k = true.
Proof.
  unfold present_keys. rewrite elem_of_filter, Is_true_true.
  split; [tauto|]. intros Hk. split; [done|].
  rewrite elem_of_union, !elem_of_dom.
  revert Hk. unfold is_present. simpl.
  destruct (staged s !! k); [eauto|].
  rewrite bool_decide_eq_true. eauto.
Qed.

Lemma present_keys_ext s s' :
  (∀ k, is_present s k = is_present s' k) → present_keys s = present_keys s'.
Proof.
  intros Heq. apply set_eq. intros k.
  by rewrite !elem_of_present_keys, Heq.
Qed.

Lemma present_keys_add k s s' :
  (∀ k', is_present s' k' = if decide (k' = k) then true else is_present s k') →
  present_keys s' = {[k]} ∪ present_keys s.
Proof.
  intros Heq. apply set_eq. intros k'.
  rewrite elem_of_union, elem_of_singleton, !elem_of_present_keys, Heq.
  case_decide; [split; auto|]. split; [auto|]. by intros [?|?].
Qed.

Lemma present_keys_remove k s s' :
  (∀ k', is_present s' k' = if decide (k' = k) then false else is_present s k') →
  present_keys s' = present_keys s ∖ {[k]}.
Proof.
  intros Heq. apply set_eq. intros k'.
  rewrite elem_of_difference, elem_of_singleton, !elem_of_present_keys, Heq.
  case_decide; [split; [done|by intros [_ ?]]|]. split; [auto|by intros [? _]].
Qed.

Lemma init_invariant (b : gmap K (pyval V)) : size_invariant (__init__ b).
Proof.
  unfold size_invariant, present_count, __init__. simpl. f_equal.
  rewrite <-(size_dom (D := gset K) b). f_equal. apply set_eq. intros k.
  rewrite elem_of_present_keys. unfold is_present. simpl.
  by rewrite lookup_empty, bool_decide_eq_true, elem_of_dom.
Qed.

Lemma reset_invariant s : size_invariant (reset s).1.
Proof. rewrite reset_eq. apply init_invariant. Qed.

Lemma setitem_eq key value s :
  __setitem__ key value s =
    (set_staged (<[key:=value]> (staged s))
       (if values_contains key s then s else set_len (len s + 1) s), inr ()).
Proof. unfold_op. by destruct (values_contains key s). Qed.

Lemma is_present_setitem key v s k' :
  is_present (__setitem__ key (Val v) s).1 k' =
    if decide (k' = key) then true else is_present s k'.
Proof.
  rewrite setitem_eq. unfold is_present. simpl.
  case_decide as Hk; [subst; by rewrite lookup_insert_eq|].
  rewrite lookup_insert_ne by done. by destruct (values_contains key s).
Qed.

(** [set] keeps the counter right unless the key is staged as a
    tombstone. *)
Lemma setitem_invariant key v s :
  staged s !! key ≠ Some DELETED →
  size_invariant s → size_invariant (__setitem__ key (Val v) s).1.
Proof.
  intros Hlive. unfold size_invariant, present_count. intros Hinv.
  rewrite (present_keys_add key s) by apply is_present_setitem.
  rewrite setitem_eq. simpl.
  destruct (is_present s key) eqn:Ep.
  - assert (values_contains key s = true) as ->.
    { apply values_contains_dict. revert Ep. unfold is_present. simpl.
      destruct (staged s !! key); [eauto|].
      rewrite bool_decide_eq_true. eauto. }
    rewrite Hinv, (subseteq_union_1_L {[key]} (present_keys s)); [done|].
    by apply singleton_subseteq_l, elem_of_present_keys.
  - apply is_present_false in Ep as [[Es Eb]|Es]; [|done].
    assert (values_contains key s = false) as ->.
    { unfold values_contains. simpl. by rewrite Es, Eb. }
    simpl. rewrite size_union, size_singleton; [lia|].
    apply disjoint_singleton_l. rewrite elem_of_present_keys.
    unfold is_present. simpl. by rewrite Es, Eb.
Qed.

(** X12: setting a key that is staged as a tombstone makes it present again
    and leaves the counter where it was: one short. *)
Lemma setitem_resurrect key v s :
  staged s !! key = Some DELETED →
  len (__setitem__ key (Val v) s).1 = len s ∧
  present_count (__setitem__ key (Val v) s).1 = S (present_count s).
Proof.
  intros Es. unfold present_count.
  rewrite (present_keys_add key s) by apply is_present_setitem.
  rewrite setitem_eq.
  assert (values_contains key s = true) as ->.
  { apply values_contains_dict. rewrite Es. eauto. }
  split; [done|].
  rewrite size_union, size_singleton; [done|].
  apply disjoint_singleton_l. rewrite elem_of_present_keys.
  unfold is_present. by rewrite Es.
Qed.

Lemma delitem_invariant key s :
  base s !! key ≠ Some DELETED →
  size_invariant s → size_invariant (__delitem__ key s).1.
Proof.
  intros Hlegal Hinv. rewrite delitem_eq by done.
  destruct (is_present s key) eqn:Ep; [|done]. simpl.
  unfold size_invariant, present_count in *.
  rewrite (present_keys_remove key s).
  - apply elem_of_present_keys in Ep.
    assert ({[key]} ⊆ present_keys s) as Hsub by by apply singleton_subseteq_l.
    rewrite size_difference by done.
    apply subseteq_size in Hsub. rewrite size_singleton in *. simpl. lia.
  - intros k'. unfold is_present. simpl.
    case_decide as Hk; [subst; by rewrite lookup_insert_eq|].
    by rewrite lookup_insert_ne.
Qed.
(** ** Committing *)

(** The base after the staged entries [l] were applied to [b]. *)
Lemma flush_loop_dict (l : list (K * pyval V)) s :
  NoDup l.*1 →
  ∃ b', for_each l flush_entry s = (set_base b' s, inr ()) ∧
        ∀ k, b' !! k =
               match (list_to_map l : gmap K (pyval V)) !! k with
               | Some DELETED => None
               | Some (Val v) => Some (Val v)
               | None => base s !! k
               end.
Proof.
  revert s. induction l as [|[key value] l IH]; intros s Hnodup.
  - exists (base s). split; [by destruct s|]. intros k. simpl.
    by rewrite lookup_empty.
  - apply NoDup_cons in Hnodup as [Hkey Hnodup]. simpl in Hkey.
    apply not_elem_of_list_to_map_1 in Hkey.
    assert (∃ b1, flush_entry (key, value) s = (set_base b1 s, inr ()) ∧
                  b1 = match value with
                       | DELETED => delete key (base s)
                       | Val _ => <[key:=value]> (base s)
                       end) as (b1 & Eentry & Eb1).
    { destruct value as [|v]; unfold_op; unfold dict_delitem.
      - destruct (base s !! key) as [x|] eqn:Eb; simpl.
        + rewrite Eb. eauto.
        + exists (base s). split; [by destruct s|].
          by rewrite delete_id.
      - eauto. }
    destruct (IH (set_base b1 s) Hnodup) as (b' & Eloop & Hb').
    exists b'. split.
    + rewrite for_each_cons, Eentry. exact Eloop.
    + intros k. rewrite Hb'. simpl.
      destruct (decide (k = key)) as [->|Hne].
      * rewrite lookup_insert_eq, Hkey, Eb1.
        destruct value; [apply lookup_delete_eq|apply lookup_insert_eq].
      * rewrite lookup_insert_ne by done.
        destruct (list_to_map l !! k) as [[|v]|]; try done.
        rewrite Eb1.
        destruct value; [by rewrite lookup_delete_ne|by rewrite lookup_insert_ne].
Qed.

Lemma flush_dict s :
  ∃ b', flush s = ({| base := b'; staged := ∅; len := len s |}, inr ()) ∧
        ∀ k, b' !! k =
               match staged s !! k with
               | Some DELETED => None
               | Some (Val v) => Some (Val v)
               | None => base s !! k
               end.
Proof.
  destruct (flush_loop_dict (map_to_list (staged s)) s) as (b' & Eloop & Hb').
  { apply NoDup_fst_map_to_list. }
  exists b'. split.
  - rewrite flush_unfold, Eloop. reflexivity.
  - intros k. rewrite Hb'. by rewrite list_to_map_to_list.
Qed.

(** C3: over a state whose counter is right, [flush] returns; in the base
    it leaves, a key staged as a tombstone is absent, a key staged with a
    value holds that value, and every other key is as before; the staging
    dict is empty and the counter is the same.  [get] answers as before for
    every key, iteration yields the same keys, [len] is the same, and the
    counter is still right. *)
Theorem flush_spec s :
  size_invariant s →
  ∃ s', flush s = (s', inr ()) ∧
        (∀ k, base s' !! k =
                match staged s !! k with
                | Some DELETED => None
                | Some (Val v) => Some (Val v)
                | None => base s !! k
                end) ∧
        staged s' = ∅ ∧
        len s' = len s ∧
        (∀ k, __getitem__ k s' = (s', (__getitem__ k s).2)) ∧
        (∃ l l', __iter__ s = (l, None) ∧ __iter__ s' = (l', None) ∧
                 NoDup l' ∧ l ≡ₚ l') ∧
        (__len__ s').2 = (__len__ s).2 ∧
        size_invariant s'.
Proof.
  intros Hinv. destruct (flush_dict s) as (b' & Eflush & Hb').
  eexists. split; [exact Eflush|]. simpl.
  set (s' := {| base := b'; staged := ∅; len := len s |}).
  assert (∀ k, live s' k = live s k) as Hlive.
  { intros k. unfold live. rewrite !values_getitem_dict. simpl.
    rewrite lookup_empty, Hb'.
    by destruct (staged s !! k) as [[|v]|]. }
  assert (∀ k, is_present s' k = is_present s k) as Hpresent.
  { intros k. unfold is_present. simpl. rewrite lookup_empty, Hb'.
    destruct (staged s !! k) as [[|v]|]; done. }
  split_and!; try done.
  - intros k. rewrite (surjective_pairing (__getitem__ k s')).
    rewrite getitem_state, !getitem_result. f_equal.
    rewrite !values_getitem_dict. simpl. rewrite lookup_empty, Hb'.
    by destruct (staged s !! k) as [[|v]|].
  - destruct (iter_spec s) as (l & El & Hnodup & Hl).
    destruct (iter_spec s') as (l' & El' & Hnodup' & Hl').
    exists l, l'. split_and!; try done.
    apply NoDup_Permutation; try done.
    intros k. by rewrite Hl, Hl', Hlive.
  - unfold size_invariant, present_count in *.
    by rewrite (present_keys_ext s' s).
Qed.
Lemma legal_dict_sound s : legal_dict (base s) = true → legal_base s.
Proof.
  unfold legal_dict, legal_base. simpl. intros Hall k Hk.
  rewrite forallb_forall in Hall.
  apply elem_of_map_to_list, list_elem_of_In, Hall in Hk. done.
Qed.
End over_dict.

(** * The scenario of the specification, evaluated *)

(** C1: the counter is not kept equal to the number of present keys.  In the
    scenario of the specification the counter is right after
    [d["c"] = 3; del d["a"]], at 2; the key [a] is then staged as a
    tombstone, so [d["a"] = 9] finds it in the chain and does not count it:
    [a] is present again, three keys are present, and [len] still says 2. *)
Theorem setitem_resurrect_miscount :
  size_invariant scenario_staged ∧
  (__len__ scenario_staged).2 = inr 2%Z ∧
  staged scenario_staged !! "a" = Some DELETED ∧
  scenario_resurrected = (__setitem__ "a" (Val 9%Z) scenario_staged).1 ∧
  is_present scenario_resurrected "a" = true ∧
  present_keys scenario_resurrected = {["a"; "b"; "c"]} ∧
  present_count scenario_resurrected = 3 ∧
  (__len__ scenario_resurrected).2 = inr 2%Z ∧
  ¬ size_invariant scenario_resurrected.
Proof.
  split_and!; try (vm_compute; reflexivity).
  vm_compute. discriminate.
Qed.

(** C2: [changed] and [deleted] do not list the pending edits once a
    deletion is pending.  After [del d["a"]] the staging dict holds the
    tombstone of [a] and nothing else; [deleted] should yield [a] and
    [changed] should yield nothing, but both test the key through [d["a"]],
    which raises KeyError.  In the scenario of the specification [changed]
    yields [c] and then raises, and [deleted] raises at once. *)
Theorem pending_listing_raises :
  map_to_list (staged scenario_deleted) = [("a", DELETED)] ∧
  deleted scenario_deleted = ([], Some (KeyError "a")) ∧
  changed scenario_deleted = ([], Some (KeyError "a")) ∧
  staged scenario_staged !! "c" = Some (Val 3%Z) ∧
  staged scenario_staged !! "a" = Some DELETED ∧
  deleted scenario_staged = ([], Some (KeyError "a")) ∧
  changed scenario_staged = (["c"], Some (KeyError "a")).
Proof. split_and!; vm_compute; reflexivity. Qed.

(** [flush] does write to the base. *)
Lemma flush_writes_base :
  base (flush scenario_staged).1 !! "c" = Some (Val 3%Z) ∧
  base scenario_staged !! "c" = None ∧
  base (flush scenario_staged).1 !! "a" = None ∧
  base scenario_staged !! "a" = Some (Val 1%Z).
Proof. split_and!; vm_compute; reflexivity. Qed.

Lemma flush_spec_witness :
  size_invariant scenario_staged ∧
  ∃ s', flush scenario_staged = (s', inr ()) ∧
        base s' !! "a" = None ∧
        base s' !! "c" = Some (Val 3%Z) ∧
        staged s' = ∅ ∧
        len s' = 2%Z ∧
        size_invariant s'.
Proof.
  assert (size_invariant scenario_staged) as Hinv by (vm_compute; reflexivity).
  split; [exact Hinv|].
  destruct (flush_spec scenario_staged Hinv)
    as (s' & Eflush & Hbase & Estaged & Elen & _ & _ & _ & Hinv').
  exists s'. split_and!; [done|apply Hbase|apply Hbase|done..].
Defined.

Lemma getitem_spec_witness :
  mm_get "a" (base scenario_staged) ≠ Some DELETED ∧
  __getitem__ "a" scenario_staged = (scenario_staged, inl (KeyError "a")) ∧
  mm_get "b" (base scenario_staged) ≠ Some DELETED ∧
  __getitem__ "b" scenario_staged = (scenario_staged, inr (Val 2%Z)).
Proof.
  assert (mm_get "a" (base scenario_staged) ≠ Some DELETED) as Ha
    by (vm_compute; discriminate).
  assert (mm_get "b" (base scenario_staged) ≠ Some DELETED) as Hb
    by (vm_compute; discriminate).
  split_and!; [exact Ha| |exact Hb|].
  - rewrite (getitem_spec "a" scenario_staged Ha). reflexivity.
  - rewrite (getitem_spec "b" scenario_staged Hb). reflexivity.
Defined.

Lemma delitem_spec_witness :
  base scenario_staged !! "b" ≠ Some DELETED ∧
  is_present scenario_staged "b" = true ∧
  (__delitem__ "b" scenario_staged).2 = inr () ∧
  staged (__delitem__ "b" scenario_staged).1 !! "b" = Some DELETED ∧
  len (__delitem__ "b" scenario_staged).1 = 1%Z ∧
  __delitem__ "b" (__delitem__ "b" scenario_staged).1
    = ((__delitem__ "b" scenario_staged).1, inl (KeyError "b")).
Proof.
  assert (base scenario_staged !! "b" ≠ Some DELETED) as Hb
    by (vm_compute; discriminate).
  destruct (delitem_spec "b" scenario_staged Hb) as (Edel & _ & Eagain).
  split_and!; [exact Hb|reflexivity|..|exact Eagain];
    rewrite Edel; reflexivity.
Defined.

Lemma contains_spec_witness :
  base scenario_staged !! "a" ≠ Some DELETED ∧
  __contains__ "a" scenario_staged = (scenario_staged, inr false) ∧
  base scenario_staged !! "c" ≠ Some DELETED ∧
  __contains__ "c" scenario_staged = (scenario_staged, inr true).
Proof.
  assert (base scenario_staged !! "a" ≠ Some DELETED) as Ha
    by (vm_compute; discriminate).
  assert (base scenario_staged !! "c" ≠ Some DELETED) as Hc
    by (vm_compute; discriminate).
  split_and!; [exact Ha| |exact Hc|].
  - destruct (contains_spec "a" scenario_staged Ha) as (-> & _). reflexivity.
  - destruct (contains_spec "c" scenario_staged Hc) as (-> & _). reflexivity.
Defined.

Lemma iter_present_witness :
  legal_base scenario_staged ∧
  ∃ l, __iter__ scenario_staged = (l, None) ∧
       NoDup l ∧ "b" ∈ l ∧ "c" ∈ l ∧ "a" ∉ l.
Proof.
  assert (legal_base scenario_staged) as Hlegal
    by (apply legal_dict_sound; vm_compute; reflexivity).
  split; [exact Hlegal|].
  destruct (iter_present scenario_staged Hlegal) as (l & El & Hnodup & Hl & _).
  exists l. split_and!; [exact El|exact Hnodup|..].
  - apply Hl. reflexivity.
  - apply Hl. reflexivity.
  - rewrite Hl. vm_compute. discriminate.
Defined.

Lemma run_base_witness :
  Forall (λ c, is_commit c = false)
    [Set_ "c" 3%Z; Del "a"; Get "b"; Contains "a"; Changed; Deleted;
     Enumerate; Size; Discard; Set_ "b" 7%Z] ∧
  base (run [Set_ "c" 3%Z; Del "a"; Get "b"; Contains "a"; Changed; Deleted;
             Enumerate; Size; Discard; Set_ "b" 7%Z] scenario_new)
    = scenario_base.
Proof.
  assert (Forall (λ c : call string Z, is_commit c = false)
    [Set_ "c" 3%Z; Del "a"; Get "b"; Contains "a"; Changed; Deleted;
     Enumerate; Size; Discard; Set_ "b" 7%Z]) as Hcalls
    by (repeat constructor).
  split; [exact Hcalls|].
  exact (run_base _ scenario_new Hcalls).
Defined.

(** * How the methods compose, over any base mapping *)

Section laws.
Context {K : Type} {EqK : EqDecision K} {CountK : Countable K}
        {V B : Type} {BaseB : BaseMapping K V B}.
Implicit Types (s : DictOverlay K V B) (k key : K).

Lemma setitem_unfold key value s :
  __setitem__ key value s =
    (set_staged (<[key:=value]> (staged s))
       (if values_contains key s then s else set_len (len s + 1) s), inr ()).
Proof. unfold_op. by destruct (values_contains key s). Qed.

Lemma setitem_staged key value s :
  staged (__setitem__ key value s).1 = <[key:=value]> (staged s).
Proof. by rewrite setitem_unfold. Qed.

Lemma getitem_unfold key s :
  __getitem__ key s =
    (s, match values_getitem key s with
        | inr (Val v) => inr (Val v)
        | _ => inl (KeyError key)
        end).
Proof.
  rewrite (surjective_pairing (__getitem__ key s)).
  by rewrite getitem_state, getitem_result.
Qed.

Lemma contains_unfold key s :
  __contains__ key s =
    (s, inr match values_getitem key s with
            | inr (Val _) => true
            | _ => false
            end).
Proof.
  unfold_op. unfold values_getitem.
  destruct (staged s !! key) as [[|v]|]; simpl; try reflexivity.
  destruct (mm_get key (base s)) as [[|v]|]; reflexivity.
Qed.

Lemma values_getitem_staged key value s :
  staged s !! key = Some value → values_getitem key s = inr value.
Proof. intros Hk. unfold values_getitem. by rewrite Hk. Qed.

Lemma values_getitem_frame k s s' :
  staged s' !! k = staged s !! k → base s' = base s →
  values_getitem k s' = values_getitem k s.
Proof. intros Hs Hb. unfold values_getitem. by rewrite Hs, Hb. Qed.

Lemma values_contains_frame k s s' :
  staged s' !! k = staged s !! k → base s' = base s →
  values_contains k s' = values_contains k s.
Proof. intros Hs Hb. unfold values_contains. by rewrite Hs, Hb. Qed.

(** X1: a value just set is what [get] returns, and the key is in the
    overlay; no other key answers differently. *)
Theorem setitem_getitem key v s :
  __getitem__ key (__setitem__ key (Val v) s).1
    = ((__setitem__ key (Val v) s).1, inr (Val v)) ∧
  __contains__ key (__setitem__ key (Val v) s).1
    = ((__setitem__ key (Val v) s).1, inr true) ∧
  ∀ k, k ≠ key →
       (__getitem__ k (__setitem__ key (Val v) s).1).2 = (__getitem__ k s).2.
Proof.
  split_and!.
  - rewrite getitem_unfold, (values_getitem_staged key (Val v)); [done|].
    by rewrite setitem_staged, lookup_insert_eq.
  - rewrite contains_unfold, (values_getitem_staged key (Val v)); [done|].
    by rewrite setitem_staged, lookup_insert_eq.
  - intros k Hk. rewrite !getitem_result.
    rewrite (values_getitem_frame k s); [done| |apply setitem_base].
    by rewrite setitem_staged, lookup_insert_ne.
Qed.


(** X3: assignments to different keys can be made in either order. *)
Theorem setitem_commute k1 k2 (v1 v2 : pyval V) s :
  k1 ≠ k2 →
  __setitem__ k2 v2 (__setitem__ k1 v1 s).1
    = __setitem__ k1 v1 (__setitem__ k2 v2 s).1.
Proof.
  intros Hne.
  rewrite (setitem_unfold k2 v2 (__setitem__ k1 v1 s).1).
  rewrite (setitem_unfold k1 v1 (__setitem__ k2 v2 s).1).
  rewrite (values_contains_frame k2 s);
    [|by rewrite setitem_staged, lookup_insert_ne|apply setitem_base].
  rewrite (values_contains_frame k1 s);
    [|by rewrite setitem_staged, lookup_insert_ne|apply setitem_base].
  rewrite !setitem_unfold. simpl. f_equal.
  destruct (values_contains k1 s), (values_contains k2 s);
    unfold set_staged, set_len; simpl;
    rewrite (insert_insert_ne _ k2 k1) by done; repeat f_equal; lia.
Qed.

Lemma delitem_cases key s :
  __delitem__ key s = (s, inl (KeyError key)) ∨
  __delitem__ key s
    = (set_len (len s - 1) (set_staged (<[key:=DELETED]> (staged s)) s),
       inr ()).
Proof.
  unfold_op. unfold values_contains, values_getitem.
  destruct (staged s !! key) as [[|v]|] eqn:Es; simpl; rewrite ?Es; simpl;
    [by left|by right|].
  destruct (mm_contains key (base s)); simpl; rewrite ?Es; [|by left].
  destruct (mm_get key (base s)) as [[|v]|]; simpl; [by left|by right|by left].
Qed.

(** X4: [delete] either raises KeyError for its key and changes nothing, or
    stages a tombstone and takes one off the counter; then [get] raises
    KeyError for the key, the key is not in the overlay, and no other key
    answers differently. *)
Theorem delitem_outcome key s :
  __delitem__ key s = (s, inl (KeyError key)) ∨
  (__delitem__ key s
     = (set_len (len s - 1) (set_staged (<[key:=DELETED]> (staged s)) s),
        inr ()) ∧
   __getitem__ key (__delitem__ key s).1
     = ((__delitem__ key s).1, inl (KeyError key)) ∧
   __contains__ key (__delitem__ key s).1
     = ((__delitem__ key s).1, inr false) ∧
   ∀ k, k ≠ key →
        (__getitem__ k (__delitem__ key s).1).2 = (__getitem__ k s).2).
Proof.
  destruct (delitem_cases key s) as [E|E]; [by left|right].
  rewrite E. simpl. split_and!; [done|..].
  - rewrite getitem_unfold, (values_getitem_staged key DELETED); [done|].
    simpl. by rewrite lookup_insert_eq.
  - rewrite contains_unfold, (values_getitem_staged key DELETED); [done|].
    simpl. by rewrite lookup_insert_eq.
  - intros k Hk. rewrite !getitem_result.
    rewrite (values_getitem_frame k s); [done| |done].
    simpl. by rewrite lookup_insert_ne.
Qed.

(** X5: a key just set can be deleted: the call returns and stages a
    tombstone.  The two calls together leave the counter where it was when
    the key was unknown before, and one lower when it was known. *)
Theorem setitem_delitem key v s :
  (__delitem__ key (__setitem__ key (Val v) s).1).2 = inr () ∧
  staged (__delitem__ key (__setitem__ key (Val v) s).1).1
    = <[key:=DELETED]> (staged s) ∧
  base (__delitem__ key (__setitem__ key (Val v) s).1).1 = base s ∧
  len (__delitem__ key (__setitem__ key (Val v) s).1).1
    = (if values_contains key s then len s - 1 else len s)%Z.
Proof.
  assert (__delitem__ key (__setitem__ key (Val v) s).1
          = (set_len (len (__setitem__ key (Val v) s).1 - 1)
               (set_staged (<[key:=DELETED]>
                  (staged (__setitem__ key (Val v) s).1))
                  (__setitem__ key (Val v) s).1), inr ())) as ->.
  { unfold __delitem__, bind, gets, lift, raise, modify, ret.
    assert (values_contains key (__setitem__ key (Val v) s).1 = true) as ->.
    { unfold values_contains. by rewrite setitem_staged, lookup_insert_eq. }
    rewrite (values_getitem_staged key (Val v)); [done|].
    by rewrite setitem_staged, lookup_insert_eq. }
  simpl. rewrite setitem_staged, insert_insert_eq, setitem_base.
  split_and!; try done.
  rewrite setitem_unfold. simpl. destruct (values_contains key s); simpl; lia.
Qed.

(** X6: [get] returns an ordinary value or raises KeyError for the key it was
    asked: the sentinel never comes out, whatever the staging dict and the
    base hold, and the overlay is left as it was. *)
Theorem getitem_outcome key s :
  (∃ v, __getitem__ key s = (s, inr (Val v))) ∨
  __getitem__ key s = (s, inl (KeyError key)).
Proof.
  rewrite getitem_unfold.
  destruct (values_getitem key s) as [e|[|v]]; eauto.
Qed.
End laws.

(** * After [flush] and [reset], over any base mapping *)

Section clean.
Context {K : Type} {EqK : EqDecision K} {CountK : Countable K}
        {V B : Type} {BaseB : BaseMapping K V B}.
Implicit Types (s : DictOverlay K V B) (k key : K).

Lemma pending_empty s :
  staged s = ∅ → changed s = ([], None) ∧ deleted s = ([], None).
Proof.
  intros Es. unfold changed, deleted. by rewrite Es, map_to_list_empty.
Qed.

Lemma flush_nothing_staged s : staged s = ∅ → flush s = (s, inr ()).
Proof.
  intros Es. rewrite flush_unfold, Es, map_to_list_empty. simpl.
  destruct s as [b m n]. simpl in Es. by subst.
Qed.

(** X9: a [flush] that returns leaves nothing pending: the staging dict is
    empty, the counter is as it was, [changed] and [deleted] yield nothing
    and do not raise, and a second [flush] changes nothing. *)
Theorem flush_clean s s' :
  flush s = (s', inr ()) →
  staged s' = ∅ ∧
  len s' = len s ∧
  changed s' = ([], None) ∧
  deleted s' = ([], None) ∧
  flush s' = (s', inr ()).
Proof.
  intros [Es El]%flush_returns.
  destruct (pending_empty s' Es) as [Ec Ed].
  split_and!; try done. by apply flush_nothing_staged.
Qed.

Lemma run_frame (calls : list (call K V)) s :
  Forall (λ c, is_commit c = false) calls → base (run calls s) = base s.
Proof.
  induction calls as [|c calls IH] using rev_ind; [reflexivity|].
  intros [Hcalls Hc]%Forall_app. rewrite run_snoc.
  rewrite exec_base; [by apply IH | by inversion Hc].
Qed.

(** X15: whatever was staged by a sequence of calls without [flush] on a new
    overlay, [reset] gives back the overlay as [__init__] made it: same base,
    nothing staged, the counter at the size of the base. *)
Theorem run_reset (calls : list (call K V)) (b : B) :
  Forall (λ c, is_commit c = false) calls →
  reset (run calls (__init__ b)) = (__init__ b, inr ()).
Proof.
  intros Hcalls. rewrite reset_eq, (run_frame calls (__init__ b) Hcalls).
  reflexivity.
Qed.
End clean.

(** * Sequences of calls, over a [dict] base *)

Section runs.
Context {K : Type} {EqK : EqDecision K} {CountK : Countable K} {V : Type}.
Implicit Types (s : DictOverlay K V (gmap K (pyval V))) (k key : K).

(** X7: membership and iteration agree: a key is yielded by iterating the
    overlay exactly when [key in overlay] is true; the iteration does not
    raise and yields no key twice. *)
Theorem iter_contains s :
  ∃ l, __iter__ s = (l, None) ∧
       NoDup l ∧
       ∀ k, k ∈ l ↔ __contains__ k s = (s, inr true).
Proof.
  destruct (iter_spec s) as (l & El & Hnodup & Hl).
  exists l. split_and!; [done..|].
  intros k. rewrite Hl, contains_unfold. unfold live.
  destruct (values_getitem k s) as [e|[|v]]; simpl; split; congruence.
Qed.

(** X8: when the counter is right and the base holds legal values, [len] is
    the number of keys that iterating the overlay yields. *)
Theorem iter_length s :
  legal_base s → size_invariant s →
  ∃ l, __iter__ s = (l, None) ∧
       __len__ s = (s, inr (Z.of_nat (length l))).
Proof.
  intros Hlegal Hinv. destruct (iter_spec s) as (l & El & Hnodup & Hl).
  exists l. split; [done|]. unfold __len__, gets. do 2 f_equal.
  rewrite Hinv. f_equal. unfold present_count.
  rewrite <-(size_list_to_set (C := gset K) l Hnodup). f_equal.
  apply set_eq. intros k.
  rewrite elem_of_present_keys, elem_of_list_to_set, Hl.
  by rewrite is_present_live by apply Hlegal.
Qed.

Lemma present_count_clean s : staged s = ∅ → present_count s = size (base s).
Proof.
  intros Es. unfold present_count.
  rewrite <-(size_dom (D := gset K) (base s)). f_equal. apply set_eq. intros k.
  rewrite elem_of_present_keys. unfold is_present. simpl.
  by rewrite Es, lookup_empty, bool_decide_eq_true, elem_of_dom.
Qed.

Lemma flush_invariant s : size_invariant s → size_invariant (flush s).1.
Proof.
  intros Hinv. destruct (flush_dict s) as (b' & -> & Hb'). simpl.
  unfold size_invariant, present_count in *. simpl.
  rewrite (present_keys_ext _ s); [done|].
  intros k. unfold is_present. simpl. rewrite lookup_empty, Hb'.
  by destruct (staged s !! k) as [[|v]|].
Qed.

Lemma flush_legal s : legal_base s → legal_base (flush s).1.
Proof.
  intros Hlegal. destruct (flush_dict s) as (b' & -> & Hb'). simpl.
  intros k. simpl. rewrite Hb'.
  destruct (staged s !! k) as [[|v]|]; [done|done|apply Hlegal].
Qed.

(** X10: when the counter is right, a [reset] after a [flush] changes
    nothing: the flushed overlay is the one [__init__] builds over the base
    as [flush] left it, with the counter at the size of that base. *)
Theorem flush_reset s :
  size_invariant s →
  reset (flush s).1 = ((flush s).1, inr ()) ∧
  (flush s).1 = __init__ (base (flush s).1) ∧
  len (flush s).1 = Z.of_nat (size (base (flush s).1)).
Proof.
  intros Hinv. apply flush_invariant in Hinv.
  destruct (flush_dict s) as (b' & Eflush & _).
  assert (staged (flush s).1 = ∅) as Es by by rewrite Eflush.
  assert ((flush s).1 = __init__ (base (flush s).1)) as Einit.
  { unfold size_invariant in Hinv. rewrite present_count_clean in Hinv by done.
    destruct (flush s).1 as [b m n]. unfold __init__. simpl in *.
    by subst. }
  split_and!; [|done|].
  - rewrite reset_eq. by rewrite <-Einit.
  - unfold size_invariant in Hinv. by rewrite present_count_clean in Hinv.
Qed.

Lemma exec_state (c : call K V) s :
  (exec c s).1 =
    match c with
    | Set_ key value => (__setitem__ key (Val value) s).1
    | Del key => (__delitem__ key s).1
    | Discard => (reset s).1
    | Commit => (flush s).1
    | _ => s
    end.
Proof.
  destruct c; unfold exec, bind; try reflexivity.
  - rewrite getitem_unfold.
    by destruct (values_getitem key s) as [e|[|v]].
  - by rewrite contains_unfold.
  - by rewrite setitem_unfold.
  - by destruct (__delitem__ key s) as [s' [e|[]]].
  - rewrite builtin_len_unfold. by destruct (len s <? 0)%Z.
  - by destruct (flush s) as [s' [e|[]]].
Qed.

Lemma legal_base_frame s s' : base s' = base s → legal_base s → legal_base s'.
Proof. intros Hb Hlegal k. rewrite Hb. apply Hlegal. Qed.

Lemma exec_invariant (c : call K V) s :
  legal_base s → size_invariant s → resurrects c s = false →
  size_invariant (exec c s).1 ∧ legal_base (exec c s).1.
Proof.
  intros Hlegal Hinv Hc. rewrite exec_state. destruct c; try done.
  - split; [|by apply (legal_base_frame s), Hlegal; [apply setitem_base]].
    apply setitem_invariant; [|done]. simpl in Hc. intros Es. by rewrite Es in Hc.
  - split; [|by apply (legal_base_frame s), Hlegal; [apply delitem_base]].
    apply delitem_invariant; [apply Hlegal|done].
  - split; [apply reset_invariant|]. by apply (legal_base_frame s).
  - split; [by apply flush_invariant|by apply flush_legal].
Qed.

(** X11: from a state whose counter is right, over a base of legal values,
    the counter stays right through any sequence of calls in which no
    assignment hits a key that is staged as a tombstone at that point. *)
Theorem run_invariant (calls : list (call K V)) s :
  legal_base s → size_invariant s → no_resurrection calls s = true →
  size_invariant (run calls s) ∧ legal_base (run calls s).
Proof.
  revert s. induction calls as [|c calls IH]; intros s Hlegal Hinv Hcalls.
  - done.
  - simpl in Hcalls. apply andb_true_iff in Hcalls as [Hc Hcalls].
    apply negb_true_iff in Hc.
    destruct (exec_invariant c s Hlegal Hinv Hc) as [Hinv' Hlegal'].
    exact (IH (exec c s).1 Hlegal' Hinv' Hcalls).
Qed.

(** X16: over a dict a call that raises has changed nothing, and it is one
    of three: [get] or [delete] raising KeyError for its key, or [len]
    raising ValueError because the counter is negative. *)
Theorem exec_raises (c : call K V) s e :
  (exec c s).2 = inl e →
  (exec c s).1 = s ∧
  ((∃ key, e = KeyError key ∧ (c = Get key ∨ c = Del key)) ∨
   (e = OtherError "ValueError" ∧ c = Size ∧ (len s < 0)%Z)).
Proof.
  destruct c; unfold exec, bind; try discriminate.
  - rewrite getitem_unfold.
    destruct (values_getitem key s) as [e'|[|v]]; simpl; try discriminate;
      intros [= <-]; eauto 6.
  - by rewrite contains_unfold.
  - by rewrite setitem_unfold.
  - destruct (delitem_cases key s) as [-> | ->]; simpl; [|discriminate].
    intros [= <-]. eauto 6.
  - rewrite builtin_len_unfold.
    destruct (len s <? 0)%Z eqn:Hneg; simpl; [|discriminate].
    intros [= <-]. apply Z.ltb_lt in Hneg. eauto.
  - destruct (flush_dict s) as (b' & -> & _). discriminate.
Qed.

(** While the counter is not negative, [len] returns it. *)
Lemma builtin_len_returns s :
  (0 ≤ len s)%Z → builtin_len s = (s, inr (len s)).
Proof.
  intros Hlen. rewrite builtin_len_unfold.
  destruct (len s <? 0)%Z eqn:Hneg; [|done]. apply Z.ltb_lt in Hneg. lia.
Qed.
End runs.

(** * The further properties in the scenario of the specification *)

Lemma setitem_commute_witness :
  __setitem__ "c" (Val 3%Z) (__setitem__ "a" (Val 9%Z) scenario_new).1
    = __setitem__ "a" (Val 9%Z) (__setitem__ "c" (Val 3%Z) scenario_new).1.
Proof. apply setitem_commute. discriminate. Defined.

Lemma iter_length_witness :
  ∃ l, __iter__ scenario_staged = (l, None) ∧
       __len__ scenario_staged = (scenario_staged, inr (Z.of_nat (length l))).
Proof.
  apply iter_length.
  - apply legal_dict_sound. vm_compute. reflexivity.
  - vm_compute. reflexivity.
Defined.

Lemma flush_clean_witness :
  staged (flush scenario_staged).1 = ∅ ∧
  len (flush scenario_staged).1 = len scenario_staged ∧
  changed (flush scenario_staged).1 = ([], None) ∧
  deleted (flush scenario_staged).1 = ([], None) ∧
  flush (flush scenario_staged).1 = ((flush scenario_staged).1, inr ()).
Proof.
  assert (flush scenario_staged = ((flush scenario_staged).1, inr ()))
    as Eflush by (vm_compute; reflexivity).
  exact (flush_clean _ _ Eflush).
Defined.

Lemma flush_reset_witness :
  reset (flush scenario_staged).1 = ((flush scenario_staged).1, inr ()) ∧
  (flush scenario_staged).1 = __init__ (base (flush scenario_staged).1) ∧
  len (flush scenario_staged).1
    = Z.of_nat (size (base (flush scenario_staged).1)).
Proof.
  assert (size_invariant scenario_staged) as Hinv by (vm_compute; reflexivity).
  exact (flush_reset _ Hinv).
Defined.

Lemma run_invariant_witness :
  size_invariant
    (run [Set_ "c" 3%Z; Del "a"; Commit; Set_ "a" 9%Z; Del "b"; Get "b";
          Discard; Set_ "b" 7%Z] scenario_new) ∧
  legal_base
    (run [Set_ "c" 3%Z; Del "a"; Commit; Set_ "a" 9%Z; Del "b"; Get "b";
          Discard; Set_ "b" 7%Z] scenario_new).
Proof.
  apply run_invariant.
  - apply legal_dict_sound. vm_compute. reflexivity.
  - vm_compute. reflexivity.
  - vm_compute. reflexivity.
Defined.

Lemma setitem_resurrect_witness :
  len (__setitem__ "a" (Val 9%Z) scenario_staged).1 = len scenario_staged ∧
  present_count (__setitem__ "a" (Val 9%Z) scenario_staged).1
    = S (present_count scenario_staged).
Proof. apply setitem_resurrect. vm_compute. reflexivity. Defined.

Lemma pending_without_tombstone_witness :
  changed (run [Set_ "c" 3%Z] scenario_new)
    = ((map_to_list (staged (run [Set_ "c" 3%Z] scenario_new))).*1, None) ∧
  deleted (run [Set_ "c" 3%Z] scenario_new) = ([], None).
Proof.
  apply pending_without_tombstone. intros k.
  assert (staged (run [Set_ "c" 3%Z] scenario_new) = <["c" := Val 3%Z]> ∅)
    as -> by (vm_compute; reflexivity).
  destruct (decide (k = "c")) as [->|Hk].
  - rewrite lookup_insert_eq. discriminate.
  - rewrite lookup_insert_ne, lookup_empty by done. discriminate.
Defined.

Lemma pending_raise_witness :
  (∃ k', staged scenario_deleted !! k' = Some DELETED ∧
         (changed scenario_deleted).2 = Some (KeyError k')) ∧
  (∃ k', staged scenario_deleted !! k' = Some DELETED ∧
         (deleted scenario_deleted).2 = Some (KeyError k')).
Proof. apply (pending_raise scenario_deleted "a"). vm_compute. reflexivity. Defined.

Lemma run_reset_witness :
  reset (run [Set_ "c" 3%Z; Del "a"; Set_ "a" 9%Z; Get "zz"; Del "b"]
           scenario_new)
    = (scenario_new, inr ()).
Proof.
  apply (run_reset [Set_ "c" 3%Z; Del "a"; Set_ "a" 9%Z; Get "zz"; Del "b"]
           scenario_base).
  repeat constructor.
Defined.

Lemma exec_raises_witness :
  ((exec (Del "a") scenario_staged).1 = scenario_staged ∧
   ((∃ key, KeyError "a" = KeyError key ∧
            ((Del "a" : call string Z) = Get key ∨
             (Del "a" : call string Z) = Del key)) ∨
    (KeyError "a" = OtherError "ValueError" ∧
     (Del "a" : call string Z) = Size ∧ (len scenario_staged < 0)%Z))) ∧
  ((exec Size scenario_negative).1 = scenario_negative ∧
   ((∃ key, OtherError "ValueError" = KeyError key ∧
            ((Size : call string Z) = Get key ∨
             (Size : call string Z) = Del key)) ∨
    (OtherError "ValueError" = @OtherError string "ValueError" ∧
     (Size : call string Z) = Size ∧ (len scenario_negative < 0)%Z))).
Proof.
  split.
  - apply exec_raises. vm_compute. reflexivity.
  - apply exec_raises. vm_compute. reflexivity.
Defined.

(** * A base write that fails during [flush] *)

Section commit_failure.
Context {K : Type} {EqK : EqDecision K} {CountK : Countable K}
        {V B : Type} {BaseB : BaseMapping K V B}.
Implicit Types (s : DictOverlay K V B) (k key : K).

Lemma flush_over_map_to_list s :
  flush s = flush_over (map_to_list (staged s)) s.
Proof. reflexivity. Qed.

(** One step of the loop is the write the specification describes. *)
Lemma flush_entry_base_write entry s :
  flush_entry entry s =
    match base_write entry (base s) with
    | inr b => (set_base b s, inr ())
    | inl e => (s, inl e)
    end.
Proof.
  destruct entry as [key [|v]]; unfold_op.
  - destruct (mm_contains key (base s)); [done|]. by destruct s.
  - done.
Qed.

Lemma for_each_base_writes entries s b1 :
  base_writes entries (base s) = inr b1 →
  for_each entries flush_entry s = (set_base b1 s, inr ()).
Proof.
  revert s. induction entries as [|entry entries IH]; intros s; simpl.
  - intros [= <-]. by destruct s.
  - destruct (base_write entry (base s)) as [e|b] eqn:Ew; [discriminate|].
    intros Hrest. unfold bind at 1. rewrite flush_entry_base_write, Ew.
    exact (IH (set_base b s) Hrest).
Qed.

Lemma for_each_app {A} (l1 l2 : list A) (body : A → Op K V B ()) s :
  for_each (l1 ++ l2) body s =
    match for_each l1 body s with
    | (s1, inr _) => for_each l2 body s1
    | (s1, inl e) => (s1, inl e)
    end.
Proof.
  revert s. induction l1 as [|x l1 IH]; intros s; [done|].
  rewrite <-app_comm_cons, !for_each_cons.
  destruct (body x s) as [s1 [e|[]]]; [done|]. apply IH.
Qed.

(** C9: let [flush] go through the staged entries in any order; if the
    writes for the first entries succeed and the write for the next one
    raises in the base, then [flush] raises that same exception, the base is
    as the successful writes left it, and the staging dict and the counter
    are exactly as before the call: nothing was cleared, removed or altered.
    The same holds of [flush] in the order of [map_to_list]. *)
Theorem flush_write_fails s items done entry rest b1 e :
  items ≡ₚ map_to_list (staged s) →
  items = done ++ entry :: rest →
  base_writes done (base s) = inr b1 →
  base_write entry b1 = inl e →
  flush_over items s
    = ({| base := b1; staged := staged s; len := len s |}, inl e) ∧
  (items = map_to_list (staged s) →
   flush s = ({| base := b1; staged := staged s; len := len s |}, inl e)).
Proof.
  intros _ -> Hdone Hentry.
  assert (flush_over (done ++ entry :: rest) s
          = ({| base := b1; staged := staged s; len := len s |}, inl e)) as E.
  { unfold flush_over, bind. rewrite for_each_app.
    rewrite (for_each_base_writes done s b1 Hdone), for_each_cons.
    rewrite flush_entry_base_write. simpl. by rewrite Hentry. }
  split; [exact E|]. intros Hitems.
  by rewrite flush_over_map_to_list, <-Hitems.
Qed.
End commit_failure.

(** Over a dict the order in which [flush] goes through the staged entries
    makes no difference. *)
Lemma flush_over_dict {K : Type} {EqK : EqDecision K} {CountK : Countable K}
    {V : Type} (s : DictOverlay K V (gmap K (pyval V))) items :
  items ≡ₚ map_to_list (staged s) → flush_over items s = flush s.
Proof.
  intros Hperm.
  assert (NoDup items.*1) as Hnodup.
  { rewrite Hperm. apply NoDup_fst_map_to_list. }
  destruct (flush_loop_dict items s Hnodup) as (b1 & E1 & Hb1).
  destruct (flush_dict s) as (b2 & E2 & Hb2).
  rewrite E2. unfold flush_over, bind. rewrite E1. simpl.
  unfold modify, set_staged. simpl. do 2 f_equal.
  apply map_eq. intros k. rewrite Hb1, Hb2.
  rewrite (list_to_map_proper items (map_to_list (staged s)) Hnodup Hperm).
  by rewrite list_to_map_to_list.
Qed.

Lemma flush_write_fails_witness :
  (flush_over [("c", Val 3%Z); ("a", Val 9%Z)] scenario_locked
     = ({| base := mkLockedDict (<["c" := Val 3%Z]> scenario_base) {["a"]};
           staged := staged scenario_locked;
           len := len scenario_locked |},
        inl (OtherError "PermissionError")) ∧
   ([("c", Val 3%Z); ("a", Val 9%Z)] = map_to_list (staged scenario_locked) →
    flush scenario_locked
      = ({| base := mkLockedDict (<["c" := Val 3%Z]> scenario_base) {["a"]};
            staged := staged scenario_locked;
            len := len scenario_locked |},
         inl (OtherError "PermissionError")))) ∧
  (flush_over [("a", Val 9%Z); ("c", Val 3%Z)] scenario_locked
     = ({| base := base scenario_locked;
           staged := staged scenario_locked;
           len := len scenario_locked |},
        inl (OtherError "PermissionError")) ∧
   ([("a", Val 9%Z); ("c", Val 3%Z)] = map_to_list (staged scenario_locked) →
    flush scenario_locked
      = ({| base := base scenario_locked;
            staged := staged scenario_locked;
            len := len scenario_locked |},
         inl (OtherError "PermissionError")))).
Proof.
  assert (map_to_list (staged scenario_locked)
          = [("c", Val 3%Z); ("a", Val 9%Z)]) as Eitems
    by (vm_compute; reflexivity).
  split.
  - apply (flush_write_fails scenario_locked _ [("c", Val 3%Z)]
             ("a", Val 9%Z) []).
    + by rewrite Eitems.
    + reflexivity.
    + vm_compute. reflexivity.
    + vm_compute. reflexivity.
  - apply (flush_write_fails scenario_locked _ [] ("a", Val 9%Z)
             [("c", Val 3%Z)]).
    + rewrite Eitems. apply perm_swap.
    + reflexivity.
    + reflexivity.
    + vm_compute. reflexivity.
Defined.
